(** * usbscanner: keycode decoding and timeout segmentation

    A shallow embedding of [processCharacter] and [processEvents] of
    [main.go], and the properties of the decoding / segmentation pipeline;
    then of [processBarcodes] and of the search for the scanner in [main].

    Go strings are byte sequences: they are modelled as [string] (a list of
    8-bit [ascii] characters).  The keycode table [evdev.KEY], a Go
    [map[int]string] of the evdev library, is a [gmap Z string] taken as a
    parameter.  The [select] loop of [processEvents] is modelled by its body,
    a transition function on the loop's variables, folded over the finite
    sequence of channel receipts the loop has served so far. *)

From Stdlib Require Import String Ascii ZArith List Bool Lia.
From stdpp Require Import gmap.
Import ListNotations.

Local Open Scope string_scope.
Local Open Scope Z_scope.

(** ** The functions of Go's [strings] package used by the program *)

Module strings.

(** [strings.HasPrefix(s, prefix)]:
    [len(s) >= len(prefix) && s[:len(prefix)] == prefix]. *)
Fixpoint HasPrefix (s prefix : string) {struct prefix} : bool :=
  match prefix, s with
  | EmptyString, _ => true
  | String _ _, EmptyString => false
  | String p prefix', String c s' => Ascii.eqb c p && HasPrefix s' prefix'
  end.

(** [s[n:]] for [n <= len(s)]. *)
Fixpoint sliceFrom (n : nat) (s : string) : string :=
  match n, s with
  | O, _ => s
  | S _, EmptyString => EmptyString
  | S n', String _ s' => sliceFrom n' s'
  end.

(** [strings.TrimPrefix(s, prefix)]: [s] without the leading [prefix],
    and [s] itself when it does not start with [prefix]. *)
Definition TrimPrefix (s prefix : string) : string :=
  if HasPrefix s prefix then sliceFrom (String.length prefix) s else s.

(** [strings.Index(s, substr)]: the index of the first instance of
    [substr] in [s], or [-1] if [substr] is not present in [s]. *)
Fixpoint Index (s substr : string) : Z :=
  if HasPrefix s substr then 0
  else match s with
       | EmptyString => -1
       | String _ s' =>
           let i := Index s' substr in
           if i <? 0 then -1 else i + 1
       end.

(** [strings.Contains(s, substr)]: [Index(s, substr) >= 0]. *)
Definition Contains (s substr : string) : bool := 0 <=? Index s substr.

(** Lower-casing of one byte: ['A'..'Z'] are moved by ['a' - 'A']. *)
Definition lowerByte (c : ascii) : ascii :=
  let n := nat_of_ascii c in
  if ((65 <=? n) && (n <=? 90))%nat then ascii_of_nat (n + 32) else c.

(** [strings.ToLower(s)] on a string of ASCII bytes (every byte below
    [utf8.RuneSelf = 0x80]), which is what key names are: each byte is
    lower-cased on its own.  On other strings Go maps [unicode.ToLower]
    over the decoded runes, which this definition does not describe. *)
Fixpoint ToLower (s : string) : string :=
  match s with
  | EmptyString => EmptyString
  | String c s' => String (lowerByte c) (ToLower s')
  end.

End strings.

(** ** [processCharacter] *)

(** The [switch key] statement of [processCharacter]: the value of [key]
    after it. *)
Definition switchKey (key : string) : string :=
  if String.eqb key "space" then " "
  else if String.eqb key "slash" then "/"
  else if String.eqb key "minus" then "-"
  else if String.eqb key "dot" then "."
  else if String.eqb key "comma" then ","
  else if String.eqb key "SEMICOLON" then ":"
  else if String.eqb key "semicolon" then ";"
  else key.

(** [processCharacter] handles translating of keycodes to characters and
    determines state of shift keys and other modifiers.  The result is the
    pair of the final values of [key] and [capNext]. *)
Definition processCharacter (key : string) (capNext : bool) : string * bool :=
  if strings.Contains key "LEFTSHIFT" || strings.Contains key "RIGHTSHIFT"
  then
    let capNext := true in
    let key := EmptyString in
    (key, capNext)
  else
    let key := strings.TrimPrefix key "KEY_" in
    let '(key, capNext) :=
      if negb capNext then (strings.ToLower key, capNext)
      else (key, false) in
    (switchKey key, capNext).

(** ** The evdev library: events and constants *)

Module evdev.

(** [evdev.InputEvent]: [Time syscall.Timeval] (seconds, microseconds),
    [Type uint16], [Code uint16], [Value int32]. *)
Record InputEvent : Type := {
  Time : Z * Z;
  Type_ : Z;
  Code : Z;
  Value : Z
}.

(** [evdev.EV_KEY], the event type of key and button state changes
    ([EV_KEY = 0x01] in the kernel's input-event-codes). *)
Definition EV_KEY : Z := 1.

End evdev.

(** A table in the shape of [evdev.KEY] holding a few entries of the
    kernel's key numbering, for closed examples. *)
Definition KEY_sample : gmap Z string :=
  list_to_map
    [ (2, "KEY_1"); (6, "KEY_5"); (12, "KEY_MINUS"); (18, "KEY_E");
      (23, "KEY_I"); (24, "KEY_O"); (28, "KEY_ENTER"); (30, "KEY_A");
      (35, "KEY_H"); (38, "KEY_L"); (39, "KEY_SEMICOLON");
      (42, "KEY_LEFTSHIFT"); (48, "KEY_B"); (51, "KEY_COMMA");
      (52, "KEY_DOT"); (53, "KEY_SLASH"); (54, "KEY_RIGHTSHIFT");
      (57, "KEY_SPACE") ].

(** A key event with the given code and value (0 up, 1 down, 2 repeat). *)
Definition keyEvent (code value : Z) : evdev.InputEvent :=
  {| evdev.Time := (0, 0); evdev.Type_ := evdev.EV_KEY;
     evdev.Code := code; evdev.Value := value |}.

(** ** [processEvents] *)

(** [timerDuration = 10 * time.Millisecond], in nanoseconds as
    [time.Duration] counts. *)
Definition timerDuration : Z := 10 * 1000000.

(** The variables of [processEvents]: the buffer [barcode], [capNext],
    [key], and the instant at which the timer [timeout] was last set to
    fire (nanoseconds). *)
Record Segmenter : Type := {
  barcode : string;
  capNext : bool;
  key : string;
  timeout : Z
}.

(** What one [select] of the loop receives: an event from the channel
    [event], served at the instant [now], or the expiry from [timeout.C]. *)
Inductive Receipt : Type :=
| FromEvent (now : Z) (ev : evdev.InputEvent)
| FromTimeout.

(** [processEvents] starts with an empty buffer, [capNext] false and the
    empty [key]; [main] created the timer at [start] with
    [time.NewTimer(timerDuration)]. *)
Definition initial (start : Z) : Segmenter :=
  {| barcode := EmptyString; capNext := false; key := EmptyString;
     timeout := start + timerDuration |}.

Section ProcessEvents.

(** The keycode table [evdev.KEY]. *)
Variable KEY : gmap Z string.

(** The symbolic key of an event: the table's entry, or ["?"]. *)
Definition symbolicKey (ev : evdev.InputEvent) : string :=
  match KEY !! evdev.Code ev with
  | Some val => val
  | None => "?"
  end.

(** One iteration of the loop of [processEvents]: the variables after it
    and what it sent on [scannedBarcode], if anything. *)
Definition iteration (s : Segmenter) (r : Receipt)
  : Segmenter * option string :=
  match r with
  | FromEvent now ev =>
      if (evdev.Value ev =? 1) && (evdev.Type_ ev =? evdev.EV_KEY) then
        let key := symbolicKey ev in
        let '(key, capNext) := processCharacter key (capNext s) in
        ({| barcode := barcode s ++ key;
            capNext := capNext;
            key := key;
            timeout := now + timerDuration |}, None)
      else (s, None)
  | FromTimeout =>
      if (0 <? Z.of_nat (String.length (barcode s))) then
        ({| barcode := EmptyString;
            capNext := false;
            key := key s;
            timeout := timeout s |}, Some (barcode s))
      else (s, None)
  end.

(** The loop of [processEvents] over the receipts [rs], in order: the
    variables afterwards and the barcodes sent on [scannedBarcode]. *)
Fixpoint processEvents (s : Segmenter) (rs : list Receipt)
  : Segmenter * list string :=
  match rs with
  | [] => (s, [])
  | r :: rs' =>
      let '(s1, sent) := iteration s r in
      let '(s2, sents) := processEvents s1 rs' in
      (s2, match sent with Some b => b :: sents | None => sents end)
  end.

End ProcessEvents.

(** The receipts of a burst of events, each with the instant it is
    served at, and no timer expiry in between. *)
Definition burst (tevs : list (Z * evdev.InputEvent)) : list Receipt :=
  map (fun te => FromEvent (fst te) (snd te)) tevs.

(** The events that the loop does not ignore: key events with value 1. *)
Definition isKeyDown (ev : evdev.InputEvent) : bool :=
  (evdev.Value ev =? 1) && (evdev.Type_ ev =? evdev.EV_KEY).

(** The test at the head of [processCharacter]. *)
Definition isShiftKey (k : string) : bool :=
  strings.Contains k "LEFTSHIFT" || strings.Contains k "RIGHTSHIFT".

(** [processCharacter] run over symbolic keys in order, threading
    [capNext]: the characters written to the buffer and the final flag. *)
Fixpoint decodeKeys (keys : list string) (capNext : bool) : string * bool :=
  match keys with
  | [] => (EmptyString, capNext)
  | k :: keys' =>
      let '(c, capNext) := processCharacter k capNext in
      let '(cs, capNext) := decodeKeys keys' capNext in
      (c ++ cs, capNext)
  end.

(** The symbolic keys of the events of a burst that the loop does not
    ignore. *)
Definition keysOf (KEY : gmap Z string) (tevs : list (Z * evdev.InputEvent))
  : list string :=
  map (symbolicKey KEY) (filter (fun ev => isKeyDown ev = true) (map snd tevs)).

(** ** The specification's vocabulary *)

(** A symbolic key denotes a shift key when its name contains
    ["LEFTSHIFT"] or ["RIGHTSHIFT"] as a substring. *)
Definition substringOf (sub s : string) : Prop :=
  exists a b : string, s = a ++ sub ++ b.

Definition denotesShift (k : string) : Prop :=
  substringOf "LEFTSHIFT" k \/ substringOf "RIGHTSHIFT" k.

(** A receipt that involves no shift key: an expiry, an event the loop
    ignores, or a key-down whose symbolic key is not a shift key. *)
Definition unshifted (KEY : gmap Z string) (r : Receipt) : Prop :=
  match r with
  | FromEvent _ ev => isKeyDown ev = true -> ~ denotesShift (symbolicKey KEY ev)
  | FromTimeout => True
  end.

(** The fixed substitution table, from bare token to literal character. *)
Definition substitutionTable : list (string * string) :=
  [ ("space", " "); ("slash", "/"); ("minus", "-"); ("dot", ".");
    ("comma", ","); ("semicolon", ";"); ("SEMICOLON", ":") ].

Fixpoint tableLookup (table : list (string * string)) (token : string)
  : option string :=
  match table with
  | [] => None
  | (t, c) :: table' =>
      if String.eqb t token then Some c else tableLookup table' token
  end.

(** A token of the table is replaced by its literal character; every other
    token passes through unchanged. *)
Definition substitute (token : string) : string :=
  match tableLookup substitutionTable token with
  | Some c => c
  | None => token
  end.

(** The bare token of a symbolic key: the name without the prefix
    ["KEY_"]. *)
Definition bareToken (k : string) : string := strings.TrimPrefix k "KEY_".

(** The base character of a key: the bare token, lower-cased, with the
    tokens of the substitution table replaced by their characters. *)
Definition baseCharacter (k : string) : string :=
  substitute (strings.ToLower (bareToken k)).

(** The strings of a list, one after the other. *)
Definition concatenation (ls : list string) : string :=
  fold_right String.append "" ls.

(** The lower-cased concatenation of the base characters of the keys. *)
Definition loweredConcat (ks : list string) : string :=
  strings.ToLower (concatenation (map baseCharacter ks)).

(** ** Bytes of a string *)

(** The upper-case ASCII letters, ['A'] to ['Z']. *)
Definition isUpperByte (c : ascii) : bool :=
  let n := nat_of_ascii c in ((65 <=? n) && (n <=? 90))%nat.

(** No byte of the string is an upper-case ASCII letter. *)
Fixpoint noUpper (s : string) : bool :=
  match s with
  | EmptyString => true
  | String c s' => negb (isUpperByte c) && noUpper s'
  end.

(** Every byte of the string is below [utf8.RuneSelf = 0x80]: the strings
    on which [strings.ToLower] above is Go's [strings.ToLower]. *)
Fixpoint isASCII (s : string) : bool :=
  match s with
  | EmptyString => true
  | String c s' => (nat_of_ascii c <? 128)%nat && isASCII s'
  end.

(** ** Receipts of a run *)

(** The symbolic keys of the key-down events among the receipts, in the
    order they are served. *)
Fixpoint keyDowns (KEY : gmap Z string) (rs : list Receipt) : list string :=
  match rs with
  | [] => []
  | FromEvent _ ev :: rs' =>
      if isKeyDown ev then symbolicKey KEY ev :: keyDowns KEY rs'
      else keyDowns KEY rs'
  | FromTimeout :: rs' => keyDowns KEY rs'
  end.

(** The receipts the loop acts on: expiries and key-down events. *)
Definition actedOn (r : Receipt) : bool :=
  match r with
  | FromEvent _ ev => isKeyDown ev
  | FromTimeout => true
  end.

(** The instant at which the last key-down event among the receipts was
    served, if there is one. *)
Fixpoint lastKeyDown (rs : list Receipt) : option Z :=
  match rs with
  | [] => None
  | r :: rs' =>
      match lastKeyDown rs' with
      | Some now => Some now
      | None =>
          match r with
          | FromEvent now ev => if isKeyDown ev then Some now else None
          | FromTimeout => None
          end
      end
  end.

(** The number of expiries among the receipts. *)
Fixpoint expiries (rs : list Receipt) : nat :=
  match rs with
  | [] => O
  | FromEvent _ _ :: rs' => expiries rs'
  | FromTimeout :: rs' => S (expiries rs')
  end.

(** The receipt [r] served at another instant, its event carrying another
    kernel time stamp. *)
Definition retime (f : Z -> Z) (g : Z * Z -> Z * Z) (r : Receipt) : Receipt :=
  match r with
  | FromEvent now ev =>
      FromEvent (f now)
        {| evdev.Time := g (evdev.Time ev); evdev.Type_ := evdev.Type_ ev;
           evdev.Code := evdev.Code ev; evdev.Value := evdev.Value ev |}
  | FromTimeout => FromTimeout
  end.

(** ** [processBarcodes] *)

(** The line end that [fmt.Println] writes. *)
Definition newline : string := String (ascii_of_nat 10) EmptyString.

(** [processBarcodes] over the barcodes received from the channel, in
    order: what each [fmt.Println("Scanned: " + code)] writes. *)
Definition processBarcodes (codes : list string) : list string :=
  map (fun code => ("Scanned: " ++ code) ++ newline) codes.

(** ** The search for the scanner in [main] *)

(** The fields of [evdev.InputDevice] that [main] reads: the device file
    [Fn] and the device name [Name]. *)
Record InputDevice : Type := {
  Fn : string;
  Name : string
}.

(** The loop of [main] over [devices]: the value of [scannerLoc] after it.
    The loop stops at the first device whose name contains
    ["Symbol Technologies"]. *)
Fixpoint scannerLoc (devices : list InputDevice) : string :=
  match devices with
  | [] => EmptyString
  | dev :: devices' =>
      if strings.Contains (Name dev) "Symbol Technologies" then Fn dev
      else scannerLoc devices'
  end.

(** How [main] goes on after the search: [os.Exit(1)] after the message
    that no scanner was found, or [evdev.Open(scannerLoc)] after the
    message that one was found. *)
Inductive Startup : Type :=
| Exit (printed : string) (code : Z)
| Open (printed : string) (loc : string).

Definition startup (devices : list InputDevice) : Startup :=
  let scannerLoc := scannerLoc devices in
  if String.eqb scannerLoc "" then
    Exit ("Cound not find a scanner, error." ++ newline) 1
  else
    Open (("Found scanner at " ++ scannerLoc) ++ newline) scannerLoc.

(** A device is the scanner when its name contains the maker's name. *)
Definition isScanner (dev : InputDevice) : Prop :=
  substringOf "Symbol Technologies" (Name dev).

(** ** Facts about the string functions *)

Lemma string_app_cons (c : ascii) (a b : string) :
  String c a ++ b = String c (a ++ b).
Proof. reflexivity. Qed.

Lemma string_app_nil_l (s : string) : "" ++ s = s.
Proof. reflexivity. Qed.

Lemma string_app_nil_r (s : string) : s ++ "" = s.
Proof.
  induction s as [|c s IH]; [reflexivity |].
  now rewrite string_app_cons, IH.
Qed.

Lemma string_app_assoc (a b c : string) : (a ++ b) ++ c = a ++ b ++ c.
Proof.
  induction a as [|x a IH]; [reflexivity |].
  now rewrite !string_app_cons, IH.
Qed.

Lemma string_app_empty (a b : string) : a ++ b = "" -> a = "" /\ b = "".
Proof. destruct a; [auto | rewrite string_app_cons; discriminate]. Qed.

Lemma HasPrefix_iff (s p : string) :
  strings.HasPrefix s p = true <-> exists t, s = p ++ t.
Proof.
  revert s. induction p as [|c p IH]; intros s; simpl.
  - split; [intros _; now exists s | reflexivity].
  - destruct s as [|d s].
    + split; [discriminate | intros [t Ht]; discriminate].
    + rewrite andb_true_iff, Ascii.eqb_eq, IH. split.
      * intros [-> [t ->]]. now exists t.
      * intros [t Ht]. rewrite string_app_cons in Ht.
        injection Ht as -> ->. split; [reflexivity | now exists t].
Qed.

Lemma Index_lower_bound (s sub : string) : -1 <= strings.Index s sub.
Proof.
  induction s as [|c s IH]; simpl.
  - destruct (strings.HasPrefix "" sub); lia.
  - destruct (strings.HasPrefix (String c s) sub); [lia |].
    destruct (strings.Index s sub <? 0) eqn:E; [lia |].
    apply Z.ltb_ge in E. lia.
Qed.

Lemma Contains_cons (c : ascii) (s sub : string) :
  strings.Contains (String c s) sub
  = strings.HasPrefix (String c s) sub || strings.Contains s sub.
Proof.
  unfold strings.Contains. simpl.
  destruct (strings.HasPrefix (String c s) sub); [reflexivity |].
  simpl. pose proof (Index_lower_bound s sub) as Hlb.
  destruct (strings.Index s sub <? 0) eqn:E.
  - apply Z.ltb_lt in E. symmetry. apply Z.leb_gt. lia.
  - apply Z.ltb_ge in E. transitivity true; [| symmetry]; apply Z.leb_le; lia.
Qed.

(** [strings.Contains] decides the substring relation. *)
Lemma Contains_iff (s sub : string) :
  strings.Contains s sub = true <-> substringOf sub s.
Proof.
  unfold substringOf. induction s as [|c s IH].
  - unfold strings.Contains. simpl.
    destruct (strings.HasPrefix "" sub) eqn:E.
    + split; [intros _ | reflexivity].
      apply HasPrefix_iff in E as [t Ht]. symmetry in Ht.
      apply string_app_empty in Ht as [-> ->]. now exists "", "".
    + split; [discriminate |]. intros (a & b & Hab).
      symmetry in Hab. apply string_app_empty in Hab as [-> Hab].
      apply string_app_empty in Hab as [-> ->]. discriminate.
  - rewrite Contains_cons, orb_true_iff, IH, HasPrefix_iff. split.
    + intros [[t Ht] | (a & b & Hab)].
      * exists "", t. exact Ht.
      * exists (String c a), b. now rewrite string_app_cons, Hab.
    + intros (a & b & Hab). destruct a as [|x a].
      * left. now exists b.
      * right. rewrite string_app_cons in Hab.
        injection Hab as _ Hs. now exists a, b.
Qed.

Lemma lowerByte_idem (c : ascii) :
  strings.lowerByte (strings.lowerByte c) = strings.lowerByte c.
Proof. destruct c as [[] [] [] [] [] [] [] []]; reflexivity. Qed.

Lemma ToLower_idem (s : string) :
  strings.ToLower (strings.ToLower s) = strings.ToLower s.
Proof.
  induction s as [|c s IH]; simpl; [reflexivity |].
  now rewrite lowerByte_idem, IH.
Qed.

Lemma ToLower_app (a b : string) :
  strings.ToLower (a ++ b) = strings.ToLower a ++ strings.ToLower b.
Proof.
  induction a as [|c a IH]; [reflexivity |].
  rewrite string_app_cons. simpl. now rewrite string_app_cons, IH.
Qed.

(** ** Facts about [processCharacter] *)

Lemma isShiftKey_iff (k : string) : isShiftKey k = true <-> denotesShift k.
Proof.
  unfold isShiftKey, denotesShift.
  now rewrite orb_true_iff, !Contains_iff.
Qed.

(** Closes [~ denotesShift k] for a literal key [k] by running the test. *)
Ltac not_shift :=
  let H := fresh "H" in
  intros H; apply isShiftKey_iff in H; discriminate H.

Lemma not_shift_false (k : string) : ~ denotesShift k -> isShiftKey k = false.
Proof. intros Hns. apply not_true_is_false. now rewrite isShiftKey_iff. Qed.

Lemma processCharacter_shift (k : string) (cap : bool) :
  isShiftKey k = true -> processCharacter k cap = ("", true).
Proof. unfold processCharacter, isShiftKey. now intros ->. Qed.

Lemma processCharacter_plain (k : string) (cap : bool) :
  isShiftKey k = false ->
  processCharacter k cap
  = (switchKey (if cap then bareToken k else strings.ToLower (bareToken k)),
     false).
Proof.
  unfold processCharacter, isShiftKey, bareToken. intros ->.
  now destruct cap.
Qed.

(** The [switch] of the code computes the table of the specification. *)
Lemma switchKey_substitute (t : string) : switchKey t = substitute t.
Proof.
  unfold switchKey, substitute, substitutionTable, tableLookup.
  rewrite !(String.eqb_sym _ t).
  repeat match goal with
         | |- context [String.eqb t ?lit] =>
             destruct (String.eqb_spec t lit) as [-> | _]; [reflexivity |]
         end.
  reflexivity.
Qed.

Lemma switchKey_lowered (t : string) :
  strings.ToLower (switchKey (strings.ToLower t))
  = switchKey (strings.ToLower t).
Proof.
  unfold switchKey.
  repeat (destruct (String.eqb _ _); [reflexivity |]).
  apply ToLower_idem.
Qed.

(** Without a shift key the flag stays false and every key contributes its
    base character. *)
Lemma processCharacter_plain_flag (k : string) (cap : bool) :
  ~ denotesShift k -> snd (processCharacter k cap) = false.
Proof.
  intros Hns. now rewrite processCharacter_plain by now apply not_shift_false.
Qed.

Lemma decodeKeys_unshifted (keys : list string) :
  Forall (fun k => ~ denotesShift k) keys ->
  decodeKeys keys false = (concatenation (map baseCharacter keys), false).
Proof.
  induction 1 as [|k keys Hk _ IH]; [reflexivity |].
  simpl. rewrite processCharacter_plain, IH.
  - unfold baseCharacter. now rewrite switchKey_substitute.
  - now apply not_shift_false.
Qed.

Lemma concatenation_lowered (keys : list string) :
  strings.ToLower (concatenation (map baseCharacter keys))
  = concatenation (map baseCharacter keys).
Proof.
  induction keys as [|k keys IH]; [reflexivity |].
  simpl. rewrite ToLower_app, IH. f_equal.
  unfold baseCharacter. rewrite <- !switchKey_substitute.
  apply switchKey_lowered.
Qed.

(** ** Facts about the loop of [processEvents] *)

Section LoopFacts.

Variable KEY : gmap Z string.

Lemma iteration_ignored (s : Segmenter) (now : Z) (ev : evdev.InputEvent) :
  isKeyDown ev = false -> iteration KEY s (FromEvent now ev) = (s, None).
Proof. unfold iteration, isKeyDown. now intros ->. Qed.

Lemma iteration_keydown (s : Segmenter) (now : Z) (ev : evdev.InputEvent) :
  isKeyDown ev = true ->
  iteration KEY s (FromEvent now ev)
  = ({| barcode :=
          barcode s ++ fst (processCharacter (symbolicKey KEY ev) (capNext s));
        capNext := snd (processCharacter (symbolicKey KEY ev) (capNext s));
        key := fst (processCharacter (symbolicKey KEY ev) (capNext s));
        timeout := now + timerDuration |}, None).
Proof.
  unfold iteration, isKeyDown. intros ->.
  now destruct (processCharacter (symbolicKey KEY ev) (capNext s)).
Qed.

Lemma iteration_timeout_empty (s : Segmenter) :
  barcode s = "" -> iteration KEY s FromTimeout = (s, None).
Proof. unfold iteration. now intros ->. Qed.

Lemma iteration_timeout_nonempty (s : Segmenter) :
  barcode s <> "" ->
  iteration KEY s FromTimeout
  = ({| barcode := ""; capNext := false; key := key s;
        timeout := timeout s |}, Some (barcode s)).
Proof.
  unfold iteration. intros Hne.
  destruct (barcode s) as [|c b]; [contradiction | reflexivity].
Qed.

Lemma processEvents_cons (s : Segmenter) (r : Receipt) (rs : list Receipt) :
  processEvents KEY s (r :: rs)
  = (fst (processEvents KEY (fst (iteration KEY s r)) rs),
     match snd (iteration KEY s r) with
     | Some b => b :: snd (processEvents KEY (fst (iteration KEY s r)) rs)
     | None => snd (processEvents KEY (fst (iteration KEY s r)) rs)
     end).
Proof.
  simpl. destruct (iteration KEY s r) as [s1 sent]. simpl.
  now destruct (processEvents KEY s1 rs).
Qed.

Lemma processEvents_app (s : Segmenter) (rs1 rs2 : list Receipt) :
  processEvents KEY s (rs1 ++ rs2)
  = (fst (processEvents KEY (fst (processEvents KEY s rs1)) rs2),
     (snd (processEvents KEY s rs1)
      ++ snd (processEvents KEY (fst (processEvents KEY s rs1)) rs2))%list).
Proof.
  revert s. induction rs1 as [|r rs1 IH]; intros s.
  - simpl. now destruct (processEvents KEY s rs2).
  - rewrite <- app_comm_cons, !processEvents_cons, IH. simpl.
    now destruct (snd (iteration KEY s r)).
Qed.

(** A burst writes the decoded keys after the buffer and sends nothing. *)
Lemma processEvents_burst (tevs : list (Z * evdev.InputEvent)) :
  forall s : Segmenter,
    barcode (fst (processEvents KEY s (burst tevs)))
    = barcode s ++ fst (decodeKeys (keysOf KEY tevs) (capNext s))
    /\ capNext (fst (processEvents KEY s (burst tevs)))
       = snd (decodeKeys (keysOf KEY tevs) (capNext s))
    /\ snd (processEvents KEY s (burst tevs)) = [].
Proof.
  induction tevs as [|[now ev] tevs IH]; intros s.
  - simpl. now rewrite string_app_nil_r.
  - change (burst ((now, ev) :: tevs))
      with (FromEvent now ev :: burst tevs).
    rewrite processEvents_cons. unfold keysOf. simpl map at 2 4.
    destruct (isKeyDown ev) eqn:Hdown.
    + rewrite filter_cons_True by exact Hdown.
      rewrite iteration_keydown by exact Hdown. simpl.
      fold (keysOf KEY tevs).
      destruct (processCharacter (symbolicKey KEY ev) (capNext s))
        as [c cap1] eqn:Hpc.
      specialize (IH {| barcode := barcode s ++ c; capNext := cap1;
                        key := c; timeout := now + timerDuration |}).
      simpl in IH. destruct IH as (Hb & Hc & Hs).
      destruct (decodeKeys (keysOf KEY tevs) cap1) as [cs cap2].
      simpl in *. now rewrite Hb, Hc, Hs, string_app_assoc.
    + rewrite filter_cons_False by (rewrite Hdown; discriminate).
      rewrite iteration_ignored by exact Hdown. simpl.
      apply IH.
Qed.

(** What the loop sends depends on the buffer and the flag only. *)
Lemma processEvents_agree (rs : list Receipt) :
  forall s s' : Segmenter,
    barcode s = barcode s' -> capNext s = capNext s' ->
    snd (processEvents KEY s rs) = snd (processEvents KEY s' rs)
    /\ barcode (fst (processEvents KEY s rs))
       = barcode (fst (processEvents KEY s' rs))
    /\ capNext (fst (processEvents KEY s rs))
       = capNext (fst (processEvents KEY s' rs)).
Proof.
  induction rs as [|r rs IH]; intros s s' Hb Hc.
  - simpl. auto.
  - rewrite !processEvents_cons. simpl.
    assert (snd (iteration KEY s r) = snd (iteration KEY s' r)
            /\ barcode (fst (iteration KEY s r))
               = barcode (fst (iteration KEY s' r))
            /\ capNext (fst (iteration KEY s r))
               = capNext (fst (iteration KEY s' r))) as (Ho & Hb1 & Hc1).
    { destruct r as [now ev|]; unfold iteration.
      - rewrite Hc. destruct (_ && _); [| auto].
        destruct (processCharacter _ _). simpl. now rewrite Hb.
      - rewrite Hb. destruct (0 <? _); simpl; auto. }
    destruct (IH _ _ Hb1 Hc1) as (Hs & Hb2 & Hc2).
    rewrite Ho, Hs. auto.
Qed.

(** Every barcode sent is non-empty. *)
Lemma processEvents_sent_nonempty (rs : list Receipt) :
  forall s : Segmenter,
    Forall (fun b => b <> "") (snd (processEvents KEY s rs)).
Proof.
  induction rs as [|r rs IH]; intros s.
  - constructor.
  - rewrite processEvents_cons. simpl.
    destruct (snd (iteration KEY s r)) as [b|] eqn:Hsent; [| apply IH].
    constructor; [| apply IH].
    destruct r as [now ev|]; unfold iteration in Hsent.
    + destruct (_ && _); [| discriminate].
      destruct (processCharacter _ _). discriminate.
    + destruct (barcode s) as [|c b0]; simpl in Hsent; [discriminate |].
      injection Hsent as <-. discriminate.
Qed.

(** Receipts that are events the loop ignores. *)
Lemma processEvents_ignored (tevs : list (Z * evdev.InputEvent)) :
  forall s : Segmenter,
    Forall (fun te => isKeyDown (snd te) = false) tevs ->
    processEvents KEY s (burst tevs) = (s, []).
Proof.
  induction tevs as [|[now ev] tevs IH]; intros s Hall.
  - reflexivity.
  - change (burst ((now, ev) :: tevs))
      with (FromEvent now ev :: burst tevs).
    apply Forall_cons in Hall as [Hev Hall]. simpl in Hev.
    rewrite processEvents_cons, iteration_ignored by exact Hev.
    simpl. now rewrite IH.
Qed.

(** Without a shift key the flag, once false, stays false. *)
Lemma flag_stays_false (rs : list Receipt) :
  forall s : Segmenter,
    capNext s = false -> Forall (unshifted KEY) rs ->
    capNext (fst (processEvents KEY s rs)) = false.
Proof.
  induction rs as [|r rs IH]; intros s Hc Hall; [exact Hc |].
  apply Forall_cons in Hall as [Hr Hall].
  rewrite processEvents_cons. cbn [fst]. apply IH; [| exact Hall].
  destruct r as [now ev|].
  - destruct (isKeyDown ev) eqn:Hdown.
    + rewrite iteration_keydown by exact Hdown. cbn [fst capNext].
      apply processCharacter_plain_flag, Hr, Hdown.
    + now rewrite iteration_ignored.
  - destruct (String.eqb_spec (barcode s) "") as [He | Hne].
    + now rewrite iteration_timeout_empty.
    + now rewrite iteration_timeout_nonempty.
Qed.

(** Expiries on an empty buffer. *)
Lemma processEvents_idle (n : nat) (s : Segmenter) :
  barcode s = "" -> processEvents KEY s (repeat FromTimeout n) = (s, []).
Proof.
  intros Hempty. induction n as [|n IH]; [reflexivity |].
  change (repeat FromTimeout (S n)) with (FromTimeout :: repeat FromTimeout n).
  rewrite processEvents_cons, iteration_timeout_empty by exact Hempty.
  simpl. now rewrite IH.
Qed.

(** A burst followed by the expiry: the buffer is sent if non-empty. *)
Lemma processEvents_burst_timeout
      (tevs : list (Z * evdev.InputEvent)) (s : Segmenter) :
  snd (processEvents KEY s (burst tevs ++ [FromTimeout]))
  = match snd (iteration KEY (fst (processEvents KEY s (burst tevs)))
                 FromTimeout) with
    | Some b => [b]
    | None => []
    end.
Proof.
  rewrite processEvents_app. cbn [snd].
  destruct (processEvents_burst tevs s) as (_ & _ & ->).
  rewrite processEvents_cons. cbn [snd processEvents app].
  destruct (snd (iteration KEY (fst (processEvents KEY s (burst tevs)))
                   FromTimeout)); reflexivity.
Qed.

Lemma keysOf_keydown (tevs : list (Z * evdev.InputEvent)) :
  Forall (fun te => isKeyDown (snd te) = true) tevs ->
  keysOf KEY tevs = map (fun te => symbolicKey KEY (snd te)) tevs.
Proof.
  unfold keysOf. induction 1 as [|[now ev] tevs Hev _ IH]; [reflexivity |].
  simpl in *. rewrite filter_cons_True by exact Hev.
  simpl. now rewrite IH.
Qed.

End LoopFacts.

Lemma not_keydown (ev : evdev.InputEvent) :
  evdev.Value ev <> 1 \/ evdev.Type_ ev <> evdev.EV_KEY ->
  isKeyDown ev = false.
Proof.
  unfold isKeyDown. intros [H | H]; apply andb_false_iff; [left | right];
    now apply Z.eqb_neq.
Qed.

(** ** The properties of the pipeline *)

(** C2: a barcode is never emitted empty.  On a timer expiry something is
    sent on [scannedBarcode] if and only if the buffer is non-empty, and
    what is sent is the buffer; an expiry with an empty buffer leaves every
    variable as it was and sends nothing; so no barcode the loop ever sends
    is empty. *)
Theorem timeout_emits_iff_nonempty (KEY : gmap Z string) (s : Segmenter) :
  ((exists b, snd (iteration KEY s FromTimeout) = Some b) <-> barcode s <> "")
  /\ (forall b, snd (iteration KEY s FromTimeout) = Some b -> b = barcode s)
  /\ (barcode s = "" -> iteration KEY s FromTimeout = (s, None))
  /\ (forall rs, Forall (fun b => b <> "") (snd (processEvents KEY s rs))).
Proof.
  repeat split.
  - intros [b Hb] Hempty.
    rewrite iteration_timeout_empty in Hb by exact Hempty. discriminate.
  - intros Hne. exists (barcode s).
    now rewrite iteration_timeout_nonempty.
  - intros b Hb. destruct (String.eqb_spec (barcode s) "") as [He | Hne].
    + rewrite iteration_timeout_empty in Hb by exact He. discriminate.
    + rewrite iteration_timeout_nonempty in Hb by exact Hne.
      simpl in Hb. congruence.
  - apply iteration_timeout_empty.
  - intros rs. apply processEvents_sent_nonempty.
Qed.

Lemma timeout_emits_iff_nonempty_witness :
  iteration KEY_sample (initial 0) FromTimeout = (initial 0, None).
Proof.
  apply (proj1 (proj2 (proj2
           (timeout_emits_iff_nonempty KEY_sample (initial 0))))).
  reflexivity.
Defined.

(** C5: an event that is not a key-down (its value is not 1, or its type is
    not [EV_KEY]) leaves the buffer, [capNext] and the instant the timer is
    set to fire as they were, and sends nothing.  A key-down of [KEY_A]
    followed by repeat events only keeps the timer as the key-down set it,
    and the expiry then sends the barcode ["a"]. *)
Theorem ignored_event_frame (KEY : gmap Z string) :
  (forall s now ev,
      evdev.Value ev <> 1 \/ evdev.Type_ ev <> evdev.EV_KEY ->
      iteration KEY s (FromEvent now ev) = (s, None))
  /\ (KEY !! 30 = Some "KEY_A" ->
      forall (start t0 : Z) (ts : list Z),
        let held := map (fun t => (t, keyEvent 30 2)) ts in
        let rs := FromEvent t0 (keyEvent 30 1) :: burst held in
        fst (processEvents KEY (initial start) rs)
        = {| barcode := "a"; capNext := false; key := "a";
             timeout := t0 + timerDuration |}
        /\ snd (processEvents KEY (initial start) (rs ++ [FromTimeout]))
           = ["a"]).
Proof.
  split.
  - intros s now ev Hev. apply iteration_ignored, not_keydown, Hev.
  - intros HA start t0 ts held rs.
    assert (Hheld : forall s, processEvents KEY s (burst held) = (s, [])).
    { intros s. apply processEvents_ignored. subst held.
      apply Forall_map. now apply Forall_true. }
    assert (Hfirst : iteration KEY (initial start) (FromEvent t0 (keyEvent 30 1))
                     = ({| barcode := "a"; capNext := false; key := "a";
                           timeout := t0 + timerDuration |}, None)).
    { rewrite iteration_keydown by reflexivity.
      unfold symbolicKey. simpl. rewrite HA. reflexivity. }
    subst rs. split.
    + rewrite processEvents_cons, Hfirst. simpl. now rewrite Hheld.
    + rewrite <- app_comm_cons, processEvents_cons, Hfirst. simpl.
      rewrite processEvents_app, Hheld. reflexivity.
Qed.

Lemma ignored_event_frame_witness :
  iteration KEY_sample (initial 0) (FromEvent 3 (keyEvent 30 0))
  = (initial 0, None)
  /\ snd (processEvents KEY_sample (initial 0)
            [FromEvent 1 (keyEvent 30 1); FromEvent 2 (keyEvent 30 2);
             FromEvent 3 (keyEvent 30 2); FromTimeout]) = ["a"].
Proof.
  split.
  - apply (proj1 (ignored_event_frame KEY_sample)).
    left. simpl. lia.
  - apply (proj2 (ignored_event_frame KEY_sample)
             eq_refl 0 1 [2; 3]).
Defined.

(** C9: for every key and every incoming flag, [processCharacter] returns
    the flag true if and only if the key contains ["LEFTSHIFT"] or
    ["RIGHTSHIFT"] as a substring.  So a key that is not a shift key, the
    placeholder ["?"] among them, returns the flag false, and a second
    shift key after a first leaves the flag true. *)
Theorem processCharacter_flag_iff_shift :
  (forall key cap,
      snd (processCharacter key cap) = true <-> denotesShift key)
  /\ (forall key cap,
         ~ denotesShift key -> snd (processCharacter key cap) = false)
  /\ (forall cap, snd (processCharacter "?" cap) = false)
  /\ (forall k1 k2 cap,
         denotesShift k1 -> denotesShift k2 ->
         snd (processCharacter k1 cap) = true
         /\ snd (processCharacter k2 (snd (processCharacter k1 cap))) = true).
Proof.
  assert (Hiff : forall key cap,
             snd (processCharacter key cap) = true <-> denotesShift key).
  { intros key cap. rewrite <- isShiftKey_iff.
    destruct (isShiftKey key) eqn:Hk.
    - now rewrite processCharacter_shift.
    - now rewrite processCharacter_plain. }
  split; [exact Hiff |]. split; [| split].
  - intros key cap Hns. apply not_true_is_false. now rewrite Hiff.
  - intros cap. now destruct cap.
  - intros k1 k2 cap H1 H2. split; now apply Hiff.
Qed.

Lemma processCharacter_flag_iff_shift_witness :
  snd (processCharacter "KEY_LEFTSHIFT" false) = true
  /\ snd (processCharacter "KEY_RIGHTSHIFT"
            (snd (processCharacter "KEY_LEFTSHIFT" false))) = true.
Proof.
  apply (proj2 (proj2 (proj2 processCharacter_flag_iff_shift))).
  - left. exists "KEY_", "". reflexivity.
  - right. exists "KEY_", "". reflexivity.
Defined.

(** C7: on a key that is not a shift key, [processCharacter] returns the
    substitution table applied to the bare token, which is lower-cased when
    the incoming flag is false and left as it is when the flag is true.
    The [switch] maps space, slash, minus, dot, comma and semicolon to
    their characters and SEMICOLON to the colon; every other token passes
    through unchanged.  The key-downs of [KEY_A], [KEY_MINUS], [KEY_B]
    yield the barcode ["a-b"]. *)
Theorem processCharacter_substitution (KEY : gmap Z string) :
  (forall k cap,
      ~ denotesShift k ->
      processCharacter k cap
      = (substitute
           (if cap then bareToken k else strings.ToLower (bareToken k)),
         false))
  /\ (switchKey "space" = " " /\ switchKey "slash" = "/"
      /\ switchKey "minus" = "-" /\ switchKey "dot" = "."
      /\ switchKey "comma" = "," /\ switchKey "semicolon" = ";"
      /\ switchKey "SEMICOLON" = ":")
  /\ (forall t, ~ In t (map fst substitutionTable) -> switchKey t = t)
  /\ (processCharacter "KEY_SEMICOLON" false = (";", false)
      /\ processCharacter "KEY_SEMICOLON" true = (":", false))
  /\ (KEY !! 30 = Some "KEY_A" -> KEY !! 12 = Some "KEY_MINUS" ->
      KEY !! 48 = Some "KEY_B" ->
      forall start t1 t2 t3 : Z,
        snd (processEvents KEY (initial start)
               [FromEvent t1 (keyEvent 30 1); FromEvent t2 (keyEvent 12 1);
                FromEvent t3 (keyEvent 48 1); FromTimeout]) = ["a-b"]).
Proof.
  split; [| split; [| split; [| split]]].
  - intros k cap Hns. rewrite processCharacter_plain.
    + now rewrite switchKey_substitute.
    + now apply not_shift_false.
  - repeat split.
  - intros t Hnot. unfold switchKey.
    repeat match goal with
           | |- context [String.eqb t ?lit] =>
               destruct (String.eqb_spec t lit) as [-> | _];
               [exfalso; apply Hnot; simpl; tauto |]
           end.
    reflexivity.
  - split; reflexivity.
  - intros HA HM HB start t1 t2 t3.
    unfold processEvents, iteration, symbolicKey. simpl.
    rewrite HA. simpl. rewrite HM. simpl. rewrite HB. reflexivity.
Qed.

Lemma processCharacter_substitution_witness :
  processCharacter "KEY_DOT" false = (".", false)
  /\ switchKey "H" = "H"
  /\ snd (processEvents KEY_sample (initial 0)
            [FromEvent 1 (keyEvent 30 1); FromEvent 2 (keyEvent 12 1);
             FromEvent 3 (keyEvent 48 1); FromTimeout]) = ["a-b"].
Proof.
  pose proof (processCharacter_substitution KEY_sample)
    as (Hpc & _ & Hother & _ & Hab).
  split; [| split].
  - apply (Hpc "KEY_DOT" false).
    not_shift.
  - apply Hother. simpl. intros H.
    repeat (destruct H as [H | H]; [discriminate H |]). exact H.
  - apply (Hab eq_refl eq_refl eq_refl 0 1 2 3).
Defined.

(** C1: for every burst of key-down events none of whose symbolic keys is a
    shift key, starting with an empty buffer and the flag false, the buffer
    after the burst is the lower-cased concatenation of the keys' base
    characters in event order, and the following expiry sends exactly that
    barcode (and sends nothing when it is empty).  The flag is false in the
    initial variables and stays false as long as no shift key is involved,
    whatever expiries and ignored events occur. *)
Theorem unshifted_burst_barcode
        (KEY : gmap Z string) (s : Segmenter)
        (tevs : list (Z * evdev.InputEvent)) :
  barcode s = "" -> capNext s = false ->
  Forall (fun te => isKeyDown (snd te) = true) tevs ->
  Forall (fun te => ~ denotesShift (symbolicKey KEY (snd te))) tevs ->
  let keys := map (fun te => symbolicKey KEY (snd te)) tevs in
  barcode (fst (processEvents KEY s (burst tevs))) = loweredConcat keys
  /\ snd (processEvents KEY s (burst tevs)) = []
  /\ snd (processEvents KEY s (burst tevs ++ [FromTimeout]))
     = (if String.eqb (loweredConcat keys) "" then []
        else [loweredConcat keys])
  /\ (forall rs, Forall (unshifted KEY) rs ->
                 capNext (fst (processEvents KEY s rs)) = false).
Proof.
  intros Hb Hc Hdown Hns keys.
  cut (barcode (fst (processEvents KEY s (burst tevs))) = loweredConcat keys
       /\ snd (processEvents KEY s (burst tevs)) = []
       /\ snd (processEvents KEY s (burst tevs ++ [FromTimeout]))
          = (if String.eqb (loweredConcat keys) "" then []
             else [loweredConcat keys])).
  { intros (H1 & H2 & H3). repeat split; try assumption.
    intros rs Hrs. now apply flag_stays_false. }
  destruct (processEvents_burst KEY tevs s) as (Hbuf & _ & Hsent).
  rewrite Hb, Hc, (keysOf_keydown KEY tevs Hdown) in Hbuf.
  fold keys in Hbuf. rewrite decodeKeys_unshifted in Hbuf.
  2:{ subst keys. apply Forall_map. exact Hns. }
  simpl in Hbuf. rewrite string_app_nil_l in Hbuf.
  unfold loweredConcat. rewrite concatenation_lowered.
  split; [exact Hbuf |]. split; [exact Hsent |].
  rewrite processEvents_burst_timeout.
  destruct (String.eqb_spec (concatenation (map baseCharacter keys)) "")
    as [He | Hne].
  - rewrite iteration_timeout_empty; [reflexivity | congruence].
  - rewrite iteration_timeout_nonempty by congruence. simpl. now rewrite Hbuf.
Qed.

Lemma unshifted_burst_barcode_witness :
  snd (processEvents KEY_sample (initial 0)
         (burst [(1, keyEvent 35 1); (2, keyEvent 18 1); (3, keyEvent 38 1);
                 (4, keyEvent 38 1); (5, keyEvent 24 1); (6, keyEvent 57 1);
                 (7, keyEvent 6 1)] ++ [FromTimeout]))
  = ["hello 5"].
Proof.
  apply (unshifted_burst_barcode KEY_sample (initial 0)
           [(1, keyEvent 35 1); (2, keyEvent 18 1); (3, keyEvent 38 1);
            (4, keyEvent 38 1); (5, keyEvent 24 1); (6, keyEvent 57 1);
            (7, keyEvent 6 1)]).
  - reflexivity.
  - reflexivity.
  - repeat constructor.
  - repeat (constructor; [not_shift |]). constructor.
Defined.

(** C4: a shift key-down capitalizes exactly one following character.
    [processCharacter] on the shift key returns the empty string with the
    flag true; a shift key followed by two keys that are not shift keys
    contributes the first key's token as it is and the second lower-cased.
    From the initial variables the key-downs [KEY_LEFTSHIFT], [KEY_H],
    [KEY_I] leave the buffer ["Hi"]: the flag is false before the shift,
    true after it (when H is processed) and false after H and after I. *)
Theorem shift_capitalizes_one (KEY : gmap Z string) :
  (forall cap, processCharacter "KEY_LEFTSHIFT" cap = ("", true))
  /\ processCharacter "KEY_H" true = ("H", false)
  /\ processCharacter "KEY_I" false = ("i", false)
  /\ (forall sh k1 k2,
         denotesShift sh -> ~ denotesShift k1 -> ~ denotesShift k2 ->
         decodeKeys [sh; k1; k2] false
         = (substitute (bareToken k1)
            ++ substitute (strings.ToLower (bareToken k2)), false))
  /\ (KEY !! 42 = Some "KEY_LEFTSHIFT" -> KEY !! 35 = Some "KEY_H" ->
      KEY !! 23 = Some "KEY_I" ->
      forall start t1 t2 t3 : Z,
        let s0 := initial start in
        let s1 := fst (iteration KEY s0 (FromEvent t1 (keyEvent 42 1))) in
        let s2 := fst (iteration KEY s1 (FromEvent t2 (keyEvent 35 1))) in
        let s3 := fst (iteration KEY s2 (FromEvent t3 (keyEvent 23 1))) in
        capNext s0 = false
        /\ (barcode s1 = "" /\ capNext s1 = true)
        /\ (barcode s2 = "H" /\ capNext s2 = false)
        /\ (barcode s3 = "Hi" /\ capNext s3 = false)
        /\ fst (processEvents KEY s0
                  [FromEvent t1 (keyEvent 42 1); FromEvent t2 (keyEvent 35 1);
                   FromEvent t3 (keyEvent 23 1)]) = s3
        /\ snd (processEvents KEY s0
                  [FromEvent t1 (keyEvent 42 1); FromEvent t2 (keyEvent 35 1);
                   FromEvent t3 (keyEvent 23 1); FromTimeout]) = ["Hi"]).
Proof.
  split; [| split; [| split; [| split]]].
  - intros cap. reflexivity.
  - reflexivity.
  - reflexivity.
  - intros sh k1 k2 Hsh H1 H2.
    apply isShiftKey_iff in Hsh.
    apply not_shift_false in H1 as E1. apply not_shift_false in H2 as E2.
    simpl. rewrite (processCharacter_shift sh false Hsh).
    rewrite (processCharacter_plain k1 true E1).
    rewrite (processCharacter_plain k2 false E2).
    rewrite !switchKey_substitute.
    now rewrite string_app_nil_l, string_app_nil_r.
  - intros HS HH HI start t1 t2 t3.
    unfold processEvents, iteration, symbolicKey. simpl.
    rewrite HS. simpl. rewrite HH. simpl. rewrite HI. simpl.
    repeat split.
Qed.

Lemma shift_capitalizes_one_witness :
  decodeKeys ["KEY_RIGHTSHIFT"; "KEY_H"; "KEY_I"] false = ("Hi", false)
  /\ snd (processEvents KEY_sample (initial 0)
            [FromEvent 1 (keyEvent 42 1); FromEvent 2 (keyEvent 35 1);
             FromEvent 3 (keyEvent 23 1); FromTimeout]) = ["Hi"].
Proof.
  pose proof (shift_capitalizes_one KEY_sample)
    as (_ & _ & _ & Hdec & Hrun).
  split.
  - apply (Hdec "KEY_RIGHTSHIFT" "KEY_H" "KEY_I").
    + right. exists "KEY_", "". reflexivity.
    + not_shift.
    + not_shift.
  - apply (Hrun eq_refl eq_refl eq_refl 0 1 2 3).
Defined.

(** C10: a key-down whose key is not a shift key and whose token is not in
    the substitution table has the whole token written to the buffer,
    however long it is.  [KEY_ENTER] is decoded to ["enter"], so one
    key-down yields a barcode of five characters. *)
Theorem whole_token_appended (KEY : gmap Z string) :
  (forall s now ev,
      isKeyDown ev = true ->
      ~ denotesShift (symbolicKey KEY ev) ->
      let token := if capNext s then bareToken (symbolicKey KEY ev)
                   else strings.ToLower (bareToken (symbolicKey KEY ev)) in
      tableLookup substitutionTable token = None ->
      barcode (fst (iteration KEY s (FromEvent now ev))) = barcode s ++ token
      /\ snd (iteration KEY s (FromEvent now ev)) = None)
  /\ processCharacter "KEY_ENTER" false = ("enter", false)
  /\ (KEY !! 28 = Some "KEY_ENTER" ->
      forall start t : Z,
        barcode (fst (iteration KEY (initial start)
                        (FromEvent t (keyEvent 28 1)))) = "enter"
        /\ snd (processEvents KEY (initial start)
                  [FromEvent t (keyEvent 28 1); FromTimeout]) = ["enter"]
        /\ String.length "enter" = 5%nat).
Proof.
  split; [| split].
  - intros s now ev Hdown Hns token Htab.
    rewrite iteration_keydown by exact Hdown. simpl.
    rewrite processCharacter_plain by now apply not_shift_false.
    simpl. fold token. rewrite switchKey_substitute.
    unfold substitute. now rewrite Htab.
  - reflexivity.
  - intros HE start t.
    unfold processEvents, iteration, symbolicKey. simpl.
    rewrite HE. simpl. repeat split.
Qed.

Lemma whole_token_appended_witness :
  barcode (fst (iteration KEY_sample (initial 0)
                  (FromEvent 1 (keyEvent 28 1)))) = "" ++ "enter"
  /\ snd (processEvents KEY_sample (initial 0)
            [FromEvent 1 (keyEvent 28 1); FromTimeout]) = ["enter"].
Proof.
  pose proof (whole_token_appended KEY_sample) as (Htok & _ & Hrun).
  split.
  - apply (Htok (initial 0) 1 (keyEvent 28 1)).
    + reflexivity.
    + not_shift.
    + reflexivity.
  - apply (Hrun eq_refl 0 1).
Defined.

(** C6: a key-down whose code has no entry in the keycode table is decoded
    as the placeholder ["?"], which [processCharacter] returns unchanged
    whatever the flag; the iteration writes ["?"] to the buffer like any
    other character and re-arms the timer.  Amid other events of a scan
    the barcode sent at the expiry has ["?"] exactly between what the
    events before it and the events after it contribute. *)
Theorem unmapped_code_placeholder
        (KEY : gmap Z string) (s : Segmenter) (now : Z)
        (ev : evdev.InputEvent) :
  isKeyDown ev = true -> KEY !! evdev.Code ev = None ->
  symbolicKey KEY ev = "?"
  /\ (forall cap, processCharacter "?" cap = ("?", false))
  /\ iteration KEY s (FromEvent now ev)
     = ({| barcode := barcode s ++ "?"; capNext := false; key := "?";
           timeout := now + timerDuration |}, None)
  /\ (forall before after : list (Z * evdev.InputEvent),
         snd (processEvents KEY s
                (burst before ++ FromEvent now ev :: burst after
                 ++ [FromTimeout]))
         = [barcode (fst (processEvents KEY s (burst before))) ++ "?"
            ++ fst (decodeKeys (keysOf KEY after) false)]).
Proof.
  intros Hdown Hmiss.
  assert (Hsym : symbolicKey KEY ev = "?")
    by (unfold symbolicKey; now rewrite Hmiss).
  assert (Hpc : forall cap, processCharacter "?" cap = ("?", false))
    by (intros cap; now destruct cap).
  assert (Hit : forall s0 : Segmenter,
             iteration KEY s0 (FromEvent now ev)
             = ({| barcode := barcode s0 ++ "?"; capNext := false; key := "?";
                   timeout := now + timerDuration |}, None)).
  { intros s0. rewrite iteration_keydown by exact Hdown.
    now rewrite Hsym, Hpc. }
  split; [exact Hsym |]. split; [exact Hpc |]. split; [apply Hit |].
  intros before after.
  rewrite processEvents_app. cbn [snd].
  destruct (processEvents_burst KEY before s) as (_ & _ & ->).
  set (s1 := fst (processEvents KEY s (burst before))).
  rewrite processEvents_cons, Hit. cbn [fst snd app].
  rewrite processEvents_burst_timeout.
  set (s2 := {| barcode := barcode s1 ++ "?"; capNext := false; key := "?";
                timeout := now + timerDuration |}).
  destruct (processEvents_burst KEY after s2) as (Hbuf & _ & _).
  simpl in Hbuf. rewrite string_app_assoc in Hbuf.
  rewrite iteration_timeout_nonempty.
  - simpl. now rewrite Hbuf.
  - rewrite Hbuf. intros He.
    apply string_app_empty in He as [_ He]. discriminate He.
Qed.

Lemma unmapped_code_placeholder_witness :
  snd (processEvents KEY_sample (initial 0)
         (burst [(1, keyEvent 30 1)] ++ FromEvent 2 (keyEvent 999 1)
          :: burst [(3, keyEvent 48 1)] ++ [FromTimeout]))
  = ["a?b"].
Proof.
  apply (unmapped_code_placeholder KEY_sample (initial 0) 2
           (keyEvent 999 1) eq_refl eq_refl).
Defined.

(** C8: scans are independent.  When a burst of events, started with an
    empty buffer and the flag false, is followed by an expiry that sends a
    barcode, the same events served again after that expiry (and any
    number of further idle expiries), followed by an expiry, send the same
    barcode a second time.  The variables after an emission send, on every
    continuation, what the initial variables send. *)
Theorem scans_are_independent
        (KEY : gmap Z string) (s : Segmenter)
        (tevs tevs' : list (Z * evdev.InputEvent)) (b : string) (n : nat) :
  barcode s = "" -> capNext s = false ->
  map snd tevs' = map snd tevs ->
  snd (processEvents KEY s (burst tevs ++ [FromTimeout])) = [b] ->
  snd (processEvents KEY s
         ((burst tevs ++ [FromTimeout]) ++ repeat FromTimeout n
          ++ burst tevs' ++ [FromTimeout])) = [b; b]
  /\ (forall (start : Z) (rs : list Receipt),
         snd (processEvents KEY
                (fst (processEvents KEY s (burst tevs ++ [FromTimeout]))) rs)
         = snd (processEvents KEY (initial start) rs)).
Proof.
  intros Hb Hc Hsame Hfirst.
  assert (Hkeys : keysOf KEY tevs' = keysOf KEY tevs)
    by (unfold keysOf; now rewrite Hsame).
  destruct (processEvents_burst KEY tevs s) as (Hbuf & _ & _).
  rewrite Hb, Hc, string_app_nil_l in Hbuf.
  pose proof Hfirst as Hsent. rewrite processEvents_burst_timeout in Hsent.
  set (s1 := fst (processEvents KEY s (burst tevs))) in *.
  assert (Hne : barcode s1 <> "").
  { intros He. rewrite iteration_timeout_empty in Hsent by exact He.
    discriminate Hsent. }
  rewrite iteration_timeout_nonempty in Hsent by exact Hne.
  simpl in Hsent. injection Hsent as Hbs1.
  assert (Hpost : fst (processEvents KEY s (burst tevs ++ [FromTimeout]))
                  = {| barcode := ""; capNext := false; key := key s1;
                       timeout := timeout s1 |}).
  { rewrite processEvents_app. cbn [fst]. fold s1.
    rewrite processEvents_cons. cbn [fst processEvents].
    now rewrite iteration_timeout_nonempty. }
  split.
  - rewrite processEvents_app, Hfirst, Hpost. cbn [snd].
    rewrite processEvents_app, processEvents_idle by reflexivity.
    cbn [fst snd app]. rewrite processEvents_burst_timeout.
    set (s2 := {| barcode := ""; capNext := false; key := key s1;
                  timeout := timeout s1 |}).
    destruct (processEvents_burst KEY tevs' s2) as (Hbuf' & _ & _).
    simpl in Hbuf'. rewrite string_app_nil_l, Hkeys, <- Hbuf, Hbs1 in Hbuf'.
    rewrite iteration_timeout_nonempty by (rewrite Hbuf'; congruence).
    simpl. now rewrite Hbuf'.
  - intros start rs. rewrite Hpost.
    now apply processEvents_agree.
Qed.

Lemma scans_are_independent_witness :
  snd (processEvents KEY_sample (initial 0)
         ((burst [(1, keyEvent 42 1); (2, keyEvent 30 1); (3, keyEvent 42 1)]
           ++ [FromTimeout]) ++ repeat FromTimeout 2
          ++ burst [(50, keyEvent 42 1); (51, keyEvent 30 1);
                    (52, keyEvent 42 1)] ++ [FromTimeout]))
  = ["A"; "A"].
Proof.
  apply (scans_are_independent KEY_sample (initial 0)
           [(1, keyEvent 42 1); (2, keyEvent 30 1); (3, keyEvent 42 1)]
           [(50, keyEvent 42 1); (51, keyEvent 30 1); (52, keyEvent 42 1)]
           "A" 2 eq_refl eq_refl eq_refl eq_refl).
Defined.

(** C3, amended: the flag is reset at every emission, and only there.
    After every expiry that sends a barcode, [capNext] is false and the
    buffer is empty.  So a shift key-down that ends a scan with a non-empty
    buffer does not reach the next scan: the expiry sends the buffer, and
    the first key of the next scan, when it is not a shift key, writes its
    base character.  An expiry on an empty buffer changes nothing: after a
    shift key-down on an empty buffer and an expiry, [capNext] is still
    true and nothing has been sent. *)
Theorem flag_reset_at_emission (KEY : gmap Z string) (s : Segmenter) :
  (forall rs b,
      snd (iteration KEY (fst (processEvents KEY s rs)) FromTimeout) = Some b ->
      capNext (fst (processEvents KEY s (rs ++ [FromTimeout]))) = false
      /\ barcode (fst (processEvents KEY s (rs ++ [FromTimeout]))) = "")
  /\ (forall now ev now' ev',
         isKeyDown ev = true -> denotesShift (symbolicKey KEY ev) ->
         barcode s <> "" ->
         isKeyDown ev' = true -> ~ denotesShift (symbolicKey KEY ev') ->
         processEvents KEY s [FromEvent now ev; FromTimeout]
         = ({| barcode := ""; capNext := false; key := "";
               timeout := now + timerDuration |}, [barcode s])
         /\ barcode (fst (processEvents KEY s
                            [FromEvent now ev; FromTimeout;
                             FromEvent now' ev']))
            = baseCharacter (symbolicKey KEY ev'))
  /\ (forall now ev,
         isKeyDown ev = true -> denotesShift (symbolicKey KEY ev) ->
         barcode s = "" ->
         processEvents KEY s [FromEvent now ev; FromTimeout]
         = ({| barcode := ""; capNext := true; key := "";
               timeout := now + timerDuration |}, [])).
Proof.
  split; [| split].
  - intros rs b Hsent.
    rewrite processEvents_app. cbn [fst].
    rewrite processEvents_cons. cbn [fst processEvents].
    destruct (String.eqb_spec (barcode (fst (processEvents KEY s rs))) "")
      as [He | Hne].
    + rewrite iteration_timeout_empty in Hsent by exact He.
      discriminate Hsent.
    + rewrite iteration_timeout_nonempty by exact Hne. split; reflexivity.
  - intros now ev now' ev' Hdown Hsh Hne Hdown' Hns.
    apply isShiftKey_iff in Hsh.
    assert (Hrun : processEvents KEY s [FromEvent now ev; FromTimeout]
                   = ({| barcode := ""; capNext := false; key := "";
                         timeout := now + timerDuration |}, [barcode s])).
    { rewrite processEvents_cons, iteration_keydown by exact Hdown.
      rewrite processCharacter_shift by exact Hsh. cbn [fst snd].
      rewrite processEvents_cons, iteration_timeout_nonempty.
      - cbn [fst snd barcode key timeout processEvents].
        now rewrite string_app_nil_r.
      - cbn [barcode]. now rewrite string_app_nil_r. }
    split; [exact Hrun |].
    change [FromEvent now ev; FromTimeout; FromEvent now' ev']
      with ([FromEvent now ev; FromTimeout] ++ [FromEvent now' ev'])%list.
    rewrite processEvents_app, Hrun. cbn [fst].
    rewrite processEvents_cons, iteration_keydown by exact Hdown'.
    cbn [fst processEvents barcode capNext].
    rewrite processCharacter_plain by now apply not_shift_false.
    cbn [fst]. unfold baseCharacter.
    now rewrite switchKey_substitute, string_app_nil_l.
  - intros now ev Hdown Hsh Hb. apply isShiftKey_iff in Hsh.
    rewrite processEvents_cons, iteration_keydown by exact Hdown.
    rewrite processCharacter_shift by exact Hsh. cbn [fst snd].
    rewrite processEvents_cons, iteration_timeout_empty.
    + cbn [fst snd processEvents]. now rewrite Hb.
    + cbn [barcode]. now rewrite Hb.
Qed.

Lemma flag_reset_at_emission_witness :
  capNext (fst (processEvents KEY_sample (initial 0)
                  ([FromEvent 1 (keyEvent 30 1); FromEvent 2 (keyEvent 42 1)]
                   ++ [FromTimeout]))) = false
  /\ barcode (fst (processEvents KEY_sample
                     {| barcode := "a"; capNext := false; key := "a";
                        timeout := 10000001 |}
                     [FromEvent 2 (keyEvent 42 1); FromTimeout;
                      FromEvent 20000000 (keyEvent 30 1)])) = "a"
  /\ processEvents KEY_sample (initial 0)
       [FromEvent 1 (keyEvent 42 1); FromTimeout]
     = ({| barcode := ""; capNext := true; key := "";
           timeout := 1 + timerDuration |}, []).
Proof.
  split; [| split].
  - apply (proj1 (flag_reset_at_emission KEY_sample (initial 0))
             [FromEvent 1 (keyEvent 30 1); FromEvent 2 (keyEvent 42 1)] "a").
    reflexivity.
  - apply (proj1 (proj2 (flag_reset_at_emission KEY_sample
                           {| barcode := "a"; capNext := false; key := "a";
                              timeout := 10000001 |}))
             2 (keyEvent 42 1) 20000000 (keyEvent 30 1)).
    + reflexivity.
    + left. exists "KEY_", "". reflexivity.
    + discriminate.
    + reflexivity.
    + not_shift.
  - apply (proj2 (proj2 (flag_reset_at_emission KEY_sample (initial 0)))
             1 (keyEvent 42 1)).
    + reflexivity.
    + left. exists "KEY_", "". reflexivity.
    + reflexivity.
Defined.

(** C3 as stated fails: from the initial variables, after the key-down of
    [KEY_LEFTSHIFT] and a timer expiry with no character in between,
    [capNext] is not false, and the first character of the next scan, the
    key-down of [KEY_A], is sent capitalized. *)
Lemma shift_outlives_idle_expiry :
  capNext (fst (processEvents KEY_sample (initial 0)
                  [FromEvent 1 (keyEvent 42 1); FromTimeout])) <> false
  /\ snd (processEvents KEY_sample (initial 0)
            [FromEvent 1 (keyEvent 42 1); FromTimeout;
             FromEvent 20000000 (keyEvent 30 1); FromTimeout]) = ["A"].
Proof. split; [vm_compute; discriminate | vm_compute; reflexivity]. Qed.

(** ** Further properties of the loop of [processEvents] *)

(** X1: segmentation neither loses nor duplicates characters.  On every
    run, the barcodes sent, one after the other, followed by what is left
    in the buffer, are the initial buffer followed by what
    [processCharacter] returned for each key-down event in order, each
    under some value of the flag. *)
Theorem characters_conserved (KEY : gmap Z string) (rs : list Receipt) :
  forall s : Segmenter,
  exists flags : list bool,
    length flags = length (keyDowns KEY rs)
    /\ concatenation (snd (processEvents KEY s rs))
       ++ barcode (fst (processEvents KEY s rs))
       = barcode s
         ++ concatenation
              (zip_with (fun k f => fst (processCharacter k f))
                 (keyDowns KEY rs) flags).
Proof.
  induction rs as [|r rs IH]; intros s.
  - exists []. split; [reflexivity |].
    simpl. now rewrite string_app_nil_l, string_app_nil_r.
  - rewrite processEvents_cons. cbn [fst snd].
    destruct r as [now ev|].
    + cbn [keyDowns]. destruct (isKeyDown ev) eqn:Hdown.
      * rewrite iteration_keydown by exact Hdown. cbn [fst snd].
        destruct (IH {| barcode :=
                          barcode s
                          ++ fst (processCharacter (symbolicKey KEY ev)
                                    (capNext s));
                        capNext := snd (processCharacter (symbolicKey KEY ev)
                                          (capNext s));
                        key := fst (processCharacter (symbolicKey KEY ev)
                                      (capNext s));
                        timeout := now + timerDuration |})
          as (flags & Hlen & Heq).
        exists (capNext s :: flags). split; [simpl; now rewrite Hlen |].
        rewrite Heq. cbn [barcode zip_with concatenation fold_right].
        now rewrite string_app_assoc.
      * rewrite iteration_ignored by exact Hdown. apply IH.
    + cbn [keyDowns].
      destruct (String.eqb_spec (barcode s) "") as [He | Hne].
      * rewrite iteration_timeout_empty by exact He. apply IH.
      * rewrite iteration_timeout_nonempty by exact Hne. cbn [fst snd].
        destruct (IH {| barcode := ""; capNext := false; key := key s;
                        timeout := timeout s |}) as (flags & Hlen & Heq).
        exists flags. split; [exact Hlen |].
        cbn [concatenation fold_right]. rewrite string_app_assoc.
        fold (concatenation
                (snd (processEvents KEY
                        {| barcode := ""; capNext := false; key := key s;
                           timeout := timeout s |} rs))).
        rewrite Heq. cbn [barcode]. now rewrite string_app_nil_l.
Qed.

(** X2: on a run without shift keys, wherever the expiries fall, the
    barcodes sent followed by what is left in the buffer are the initial
    buffer followed by the base characters of the key-down events in
    order: expiries only cut the character stream. *)
Theorem unshifted_characters_conserved
        (KEY : gmap Z string) (rs : list Receipt) :
  forall s : Segmenter,
    capNext s = false -> Forall (unshifted KEY) rs ->
    concatenation (snd (processEvents KEY s rs))
    ++ barcode (fst (processEvents KEY s rs))
    = barcode s ++ concatenation (map baseCharacter (keyDowns KEY rs)).
Proof.
  induction rs as [|r rs IH]; intros s Hc Hall.
  - simpl. now rewrite string_app_nil_l, string_app_nil_r.
  - apply Forall_cons in Hall as [Hr Hall].
    rewrite processEvents_cons. cbn [fst snd].
    destruct r as [now ev|].
    + cbn [keyDowns]. destruct (isKeyDown ev) eqn:Hdown.
      * rewrite iteration_keydown by exact Hdown. cbn [fst snd].
        pose proof (Hr Hdown) as Hns. rewrite Hc.
        rewrite processCharacter_plain by now apply not_shift_false.
        cbn [fst snd]. rewrite IH by (try exact Hall; reflexivity).
        cbn [barcode map concatenation fold_right].
        unfold baseCharacter.
        now rewrite switchKey_substitute, string_app_assoc.
      * rewrite iteration_ignored by exact Hdown. now apply IH.
    + cbn [keyDowns].
      destruct (String.eqb_spec (barcode s) "") as [He | Hne].
      * rewrite iteration_timeout_empty by exact He. now apply IH.
      * rewrite iteration_timeout_nonempty by exact Hne. cbn [fst snd].
        cbn [concatenation fold_right]. rewrite string_app_assoc.
        fold (concatenation
                (snd (processEvents KEY
                        {| barcode := ""; capNext := false; key := key s;
                           timeout := timeout s |} rs))).
        rewrite IH by (try exact Hall; reflexivity).
        cbn [barcode]. now rewrite string_app_nil_l.
Qed.

Lemma unshifted_characters_conserved_witness :
  concatenation
    (snd (processEvents KEY_sample (initial 0)
            [FromEvent 1 (keyEvent 30 1); FromTimeout;
             FromEvent 2 (keyEvent 12 1); FromEvent 3 (keyEvent 30 0);
             FromTimeout; FromEvent 4 (keyEvent 48 1)]))
  ++ barcode
       (fst (processEvents KEY_sample (initial 0)
               [FromEvent 1 (keyEvent 30 1); FromTimeout;
                FromEvent 2 (keyEvent 12 1); FromEvent 3 (keyEvent 30 0);
                FromTimeout; FromEvent 4 (keyEvent 48 1)]))
  = "" ++ concatenation (map baseCharacter ["KEY_A"; "KEY_MINUS"; "KEY_B"]).
Proof.
  apply (unshifted_characters_conserved KEY_sample
           [FromEvent 1 (keyEvent 30 1); FromTimeout;
            FromEvent 2 (keyEvent 12 1); FromEvent 3 (keyEvent 30 0);
            FromTimeout; FromEvent 4 (keyEvent 48 1)] (initial 0)).
  - reflexivity.
  - repeat (constructor; [first [exact I | intros _; not_shift
                                | intros Hd; discriminate Hd] |]).
    constructor.
Defined.

(** X3: events that are not key-downs can be erased from a run: the
    variables at the end (timer included) and the barcodes sent are those
    of the run restricted to the expiries and the key-down events. *)
Theorem ignored_receipts_erasable
        (KEY : gmap Z string) (rs : list Receipt) :
  forall s : Segmenter,
    processEvents KEY s rs
    = processEvents KEY s (filter (fun r => actedOn r = true) rs).
Proof.
  induction rs as [|r rs IH]; intros s; [reflexivity |].
  destruct (actedOn r) eqn:Hact.
  - rewrite filter_cons_True by exact Hact.
    rewrite !processEvents_cons. now rewrite <- IH.
  - rewrite filter_cons_False by (rewrite Hact; discriminate).
    destruct r as [now ev|]; [| discriminate Hact].
    simpl in Hact. rewrite processEvents_cons.
    rewrite iteration_ignored by exact Hact. cbn [fst snd].
    rewrite <- IH. now destruct (processEvents KEY s rs).
Qed.

(** X4: the timer is set by the key-down events and by nothing else.
    After a run the timer is set to fire [timerDuration] after the instant
    the last key-down event was served, whatever its key (a shift key and
    an unmapped code re-arm it too); without a key-down event it is as it
    was before the run. *)
Theorem timer_follows_last_keydown
        (KEY : gmap Z string) (rs : list Receipt) :
  forall s : Segmenter,
    timeout (fst (processEvents KEY s rs))
    = match lastKeyDown rs with
      | Some now => now + timerDuration
      | None => timeout s
      end.
Proof.
  induction rs as [|r rs IH]; intros s; [reflexivity |].
  rewrite processEvents_cons. cbn [fst lastKeyDown]. rewrite IH.
  destruct (lastKeyDown rs) as [t|]; [reflexivity |].
  destruct r as [now ev|].
  - destruct (isKeyDown ev) eqn:Hdown.
    + now rewrite iteration_keydown.
    + now rewrite iteration_ignored.
  - destruct (String.eqb_spec (barcode s) "") as [He | Hne].
    + now rewrite iteration_timeout_empty.
    + now rewrite iteration_timeout_nonempty.
Qed.

(** X5: every barcode sent takes an expiry of its own, and, when the run
    starts with an empty buffer, a key-down event of its own: the loop
    sends no more barcodes than there are expiries, and no more than there
    are key-down events. *)
Theorem sent_count_bounds (KEY : gmap Z string) (rs : list Receipt) :
  forall s : Segmenter,
    (length (snd (processEvents KEY s rs)) <= expiries rs)%nat
    /\ (barcode s = "" ->
        (length (snd (processEvents KEY s rs))
         <= length (keyDowns KEY rs))%nat).
Proof.
  assert (Hexp : forall s : Segmenter,
             (length (snd (processEvents KEY s rs)) <= expiries rs)%nat).
  { induction rs as [|r rs IH]; intros s; [simpl; lia |].
    rewrite processEvents_cons. cbn [snd].
    destruct r as [now ev|]; cbn [expiries].
    - destruct (isKeyDown ev) eqn:Hdown.
      + rewrite iteration_keydown by exact Hdown. apply IH.
      + rewrite iteration_ignored by exact Hdown. apply IH.
    - specialize (IH (fst (iteration KEY s FromTimeout))).
      destruct (snd (iteration KEY s FromTimeout)); cbn [length]; lia. }
  assert (Hkd : forall s : Segmenter,
             (length (snd (processEvents KEY s rs))
              + (if String.eqb (barcode (fst (processEvents KEY s rs))) ""
                 then 0 else 1)
              <= length (keyDowns KEY rs)
                 + (if String.eqb (barcode s) "" then 0 else 1))%nat).
  { clear Hexp. induction rs as [|r rs IH]; intros s; [simpl; lia |].
    rewrite processEvents_cons. cbn [fst snd].
    destruct r as [now ev|]; cbn [keyDowns].
    - destruct (isKeyDown ev) eqn:Hdown.
      + rewrite iteration_keydown by exact Hdown. cbn [fst snd].
        match goal with
        | |- context [processEvents KEY ?s1 rs] => specialize (IH s1)
        end.
        cbn [length barcode] in IH |- *.
        destruct (String.eqb (barcode s ++ _) "") in IH; lia.
      + rewrite iteration_ignored by exact Hdown. apply IH.
    - destruct (String.eqb_spec (barcode s) "") as [He | Hne].
      + rewrite iteration_timeout_empty by exact He. cbn [fst snd].
        specialize (IH s).
        destruct (String.eqb_spec (barcode s) ""); [lia | contradiction].
      + rewrite iteration_timeout_nonempty by exact Hne. cbn [fst snd].
        match goal with
        | |- context [processEvents KEY ?s1 rs] => specialize (IH s1)
        end.
        cbn [barcode String.eqb] in IH. cbn [length]. lia. }
  intros s. split; [apply Hexp |].
  intros He. specialize (Hkd s). rewrite He in Hkd. simpl in Hkd.
  destruct (String.eqb (barcode (fst (processEvents KEY s rs))) ""); lia.
Qed.

Lemma sent_count_bounds_witness :
  (length (snd (processEvents KEY_sample (initial 0)
                  [FromTimeout; FromEvent 1 (keyEvent 30 1); FromTimeout;
                   FromTimeout; FromEvent 2 (keyEvent 42 1); FromTimeout]))
   <= length (keyDowns KEY_sample
                [FromTimeout; FromEvent 1 (keyEvent 30 1); FromTimeout;
                 FromTimeout; FromEvent 2 (keyEvent 42 1); FromTimeout]))%nat.
Proof.
  apply (sent_count_bounds KEY_sample
           [FromTimeout; FromEvent 1 (keyEvent 30 1); FromTimeout;
            FromTimeout; FromEvent 2 (keyEvent 42 1); FromTimeout]
           (initial 0)).
  reflexivity.
Defined.

(** X6: without a shift key no upper-case letter reaches a barcode.  For
    a key name of ASCII bytes and the flag false, what [processCharacter]
    returns has no byte from ['A'] to ['Z'].  So on a run without shift
    keys whose key names are ASCII, started with the flag false and a
    buffer without such a byte, no barcode sent and no buffer has one. *)
Theorem unshifted_barcodes_lowercase (KEY : gmap Z string) :
  (forall k,
      isASCII k = true -> noUpper (fst (processCharacter k false)) = true)
  /\ (forall (rs : list Receipt) (s : Segmenter),
         capNext s = false -> noUpper (barcode s) = true ->
         Forall (unshifted KEY) rs ->
         Forall (fun k => isASCII k = true) (keyDowns KEY rs) ->
         Forall (fun b => noUpper b = true) (snd (processEvents KEY s rs))
         /\ noUpper (barcode (fst (processEvents KEY s rs))) = true).
Proof.
  assert (Hbyte : forall c, isUpperByte (strings.lowerByte c) = false)
    by (intros [[] [] [] [] [] [] [] []]; reflexivity).
  assert (Hlow : forall t, noUpper (strings.ToLower t) = true).
  { induction t as [|c t IH]; [reflexivity |].
    cbn [strings.ToLower noUpper]. now rewrite Hbyte, IH. }
  assert (Happ : forall a b, noUpper (a ++ b) = noUpper a && noUpper b).
  { induction a as [|c a IH]; intros b; [reflexivity |].
    rewrite string_app_cons. cbn [noUpper]. now rewrite IH, andb_assoc. }
  assert (Hsw : forall t, noUpper t = true -> noUpper (switchKey t) = true).
  { intros t Ht. unfold switchKey.
    repeat (destruct (String.eqb t _); [reflexivity |]). exact Ht. }
  assert (Hpc : forall k, noUpper (fst (processCharacter k false)) = true).
  { intros k. destruct (isShiftKey k) eqn:Hk.
    - now rewrite processCharacter_shift.
    - rewrite processCharacter_plain by exact Hk. apply Hsw, Hlow. }
  split; [intros k _; apply Hpc |].
  intros rs. induction rs as [|r rs IH]; intros s Hc Hbuf Hall Hascii.
  - split; [constructor | exact Hbuf].
  - apply Forall_cons in Hall as [Hr Hall].
    rewrite processEvents_cons. cbn [fst snd].
    destruct r as [now ev|].
    + cbn [keyDowns] in Hascii. destruct (isKeyDown ev) eqn:Hdown.
      * apply Forall_cons in Hascii as [_ Hascii].
        rewrite iteration_keydown by exact Hdown. cbn [fst snd].
        apply IH; cbn [capNext barcode]; try assumption.
        -- rewrite Hc. now apply processCharacter_plain_flag, Hr.
        -- now rewrite Hc, Happ, Hbuf, Hpc.
      * rewrite iteration_ignored by exact Hdown. now apply IH.
    + cbn [keyDowns] in Hascii.
      destruct (String.eqb_spec (barcode s) "") as [He | Hne].
      * rewrite iteration_timeout_empty by exact He. now apply IH.
      * rewrite iteration_timeout_nonempty by exact Hne. cbn [fst snd].
        destruct (IH {| barcode := ""; capNext := false; key := key s;
                        timeout := timeout s |} eq_refl eq_refl Hall Hascii)
          as (Hsent & Hfinal).
        split; [constructor; assumption | exact Hfinal].
Qed.

Lemma unshifted_barcodes_lowercase_witness :
  noUpper (fst (processCharacter "KEY_ENTER" false)) = true
  /\ Forall (fun b => noUpper b = true)
       (snd (processEvents KEY_sample (initial 0)
               [FromEvent 1 (keyEvent 35 1); FromEvent 2 (keyEvent 28 1);
                FromTimeout; FromEvent 3 (keyEvent 999 1); FromTimeout])).
Proof.
  split.
  - apply (proj1 (unshifted_barcodes_lowercase KEY_sample) "KEY_ENTER").
    reflexivity.
  - apply (proj2 (unshifted_barcodes_lowercase KEY_sample)
             [FromEvent 1 (keyEvent 35 1); FromEvent 2 (keyEvent 28 1);
              FromTimeout; FromEvent 3 (keyEvent 999 1); FromTimeout]
             (initial 0)).
    + reflexivity.
    + reflexivity.
    + repeat (constructor; [first [exact I | intros _; not_shift] |]).
      constructor.
    + repeat constructor.
Defined.

(** X7: an expiry served directly after another expiry does nothing.  A
    run with two expiries in a row ends in the same variables and sends
    the same barcodes as the run with one of them removed. *)
Theorem repeated_expiry_absorbed
        (KEY : gmap Z string) (s : Segmenter) (rs1 rs2 : list Receipt) :
  processEvents KEY s (rs1 ++ FromTimeout :: FromTimeout :: rs2)
  = processEvents KEY s (rs1 ++ FromTimeout :: rs2).
Proof.
  rewrite !processEvents_app.
  set (s1 := fst (processEvents KEY s rs1)).
  rewrite (processEvents_cons KEY s1 FromTimeout (FromTimeout :: rs2)).
  rewrite (processEvents_cons KEY s1 FromTimeout rs2).
  assert (Hempty : barcode (fst (iteration KEY s1 FromTimeout)) = "").
  { destruct (String.eqb_spec (barcode s1) "") as [He | Hne].
    - now rewrite iteration_timeout_empty.
    - now rewrite iteration_timeout_nonempty. }
  rewrite (processEvents_cons KEY (fst (iteration KEY s1 FromTimeout))
             FromTimeout rs2).
  rewrite (iteration_timeout_empty KEY _ Hempty). reflexivity.
Qed.

(** ** [processBarcodes] and the search for the scanner *)

(** X8: [processBarcodes] writes one line per barcode received, in order,
    and the barcode can be read back from its line by removing the prefix
    ["Scanned: "]; fed with what [processEvents] sends on any run, it never
    writes the line of an empty barcode. *)
Theorem scanned_lines (KEY : gmap Z string) (s : Segmenter)
        (rs : list Receipt) (codes : list string) :
  length (processBarcodes codes) = length codes
  /\ map (fun line => strings.TrimPrefix line "Scanned: ")
       (processBarcodes codes)
     = map (fun code => code ++ newline) codes
  /\ Forall (fun line => line <> "Scanned: " ++ newline)
       (processBarcodes (snd (processEvents KEY s rs))).
Proof.
  split; [| split].
  - unfold processBarcodes. now rewrite length_map.
  - unfold processBarcodes. induction codes as [|code codes IH].
    + reflexivity.
    + cbn [map]. rewrite IH. f_equal.
  - unfold processBarcodes. apply Forall_map.
    eapply Forall_impl; [apply processEvents_sent_nonempty |].
    intros b Hb Heq. cbn in Heq. apply Hb.
    rewrite !string_app_cons, string_app_nil_l in Heq.
    repeat (injection Heq as Heq).
    destruct b as [|c b]; [reflexivity |].
    rewrite string_app_cons in Heq. unfold newline in Heq.
    injection Heq as _ Heq.
    apply string_app_empty in Heq as [_ Heq]. discriminate Heq.
Qed.

(** X9: [main] takes the first device whose name contains
    ["Symbol Technologies"], and no later one.  If no device has such a
    name, [main] prints that no scanner was found and exits with status 1.
    If [dev] is the first such device, [scannerLoc] is its file: [main]
    goes on to open it, or exits as if no scanner was found when that file
    name is empty, whatever devices follow.  Whenever [scannerLoc] is not
    empty it is the file of the first such device. *)
Theorem scanner_is_first_match (devices : list InputDevice) :
  (Forall (fun d => ~ isScanner d) devices ->
   scannerLoc devices = ""
   /\ startup devices = Exit ("Cound not find a scanner, error." ++ newline) 1)
  /\ (forall before dev after,
         devices = (before ++ dev :: after)%list ->
         Forall (fun d => ~ isScanner d) before -> isScanner dev ->
         scannerLoc devices = Fn dev
         /\ startup devices
            = if String.eqb (Fn dev) ""
              then Exit ("Cound not find a scanner, error." ++ newline) 1
              else Open (("Found scanner at " ++ Fn dev) ++ newline) (Fn dev))
  /\ (scannerLoc devices <> "" ->
      exists before dev after,
        devices = (before ++ dev :: after)%list
        /\ Forall (fun d => ~ isScanner d) before
        /\ isScanner dev
        /\ Fn dev = scannerLoc devices).
Proof.
  assert (Hnone : forall ds, Forall (fun d => ~ isScanner d) ds ->
                             scannerLoc ds = "").
  { induction 1 as [|d ds Hd _ IH]; [reflexivity |].
    cbn [scannerLoc].
    destruct (strings.Contains (Name d) "Symbol Technologies") eqn:Hc;
      [| exact IH].
    apply Contains_iff in Hc. contradiction. }
  assert (Hfirst : forall before dev after,
             Forall (fun d => ~ isScanner d) before -> isScanner dev ->
             scannerLoc (before ++ dev :: after) = Fn dev).
  { intros before dev after Hbefore Hdev.
    induction Hbefore as [|d ds Hd _ IH].
    - cbn [app scannerLoc]. apply Contains_iff in Hdev. now rewrite Hdev.
    - rewrite <- app_comm_cons. cbn [scannerLoc].
      destruct (strings.Contains (Name d) "Symbol Technologies") eqn:Hc;
        [| exact IH].
      apply Contains_iff in Hc. contradiction. }
  split; [| split].
  - intros Hall. split; [now apply Hnone |].
    unfold startup. now rewrite Hnone.
  - intros before dev after -> Hbefore Hdev.
    split; [now apply Hfirst |].
    unfold startup. now rewrite Hfirst.
  - induction devices as [|d ds IH]; intros Hloc; [contradiction |].
    cbn [scannerLoc] in Hloc |- *.
    destruct (strings.Contains (Name d) "Symbol Technologies") eqn:Hc.
    + exists [], d, ds. repeat split; [constructor |].
      now apply Contains_iff.
    + destruct (IH Hloc) as (before & dev & after & -> & Hb & Hdev & Hfn).
      exists (d :: before), dev, after. repeat split; try assumption.
      constructor; [| exact Hb].
      intros Hd. apply Contains_iff in Hd. congruence.
Qed.

Lemma scanner_is_first_match_witness :
  startup [ {| Fn := "/dev/input/event0"; Name := "AT Keyboard" |};
            {| Fn := "/dev/input/event5";
               Name := "Symbol Technologies, Inc, 2008 Symbol Bar Code Scanner" |};
            {| Fn := "/dev/input/event7";
               Name := "Symbol Technologies cradle" |} ]
  = Open (("Found scanner at " ++ "/dev/input/event5") ++ newline)
      "/dev/input/event5".
Proof.
  apply (proj1 (proj2 (scanner_is_first_match
          [ {| Fn := "/dev/input/event0"; Name := "AT Keyboard" |};
            {| Fn := "/dev/input/event5";
               Name := "Symbol Technologies, Inc, 2008 Symbol Bar Code Scanner" |};
            {| Fn := "/dev/input/event7";
               Name := "Symbol Technologies cradle" |} ]))
          [ {| Fn := "/dev/input/event0"; Name := "AT Keyboard" |} ]
          {| Fn := "/dev/input/event5";
             Name := "Symbol Technologies, Inc, 2008 Symbol Bar Code Scanner" |}
          [ {| Fn := "/dev/input/event7";
               Name := "Symbol Technologies cradle" |} ]).
  - reflexivity.
  - constructor; [| constructor].
    intros H. apply Contains_iff in H. discriminate H.
  - apply Contains_iff. reflexivity.
Defined.

(** ** Further properties of [processCharacter] *)

(** X10: only shift keys and the key names [""] and ["KEY_"] write nothing.
    [processCharacter] returns the empty string exactly for them, whatever
    the flag; the key-down of any other key leaves a non-empty buffer, so
    the next expiry sends a barcode that ends with what the key wrote. *)
Theorem silent_keys (KEY : gmap Z string) :
  (forall k cap,
      fst (processCharacter k cap) = ""
      <-> denotesShift k \/ k = "" \/ k = "KEY_")
  /\ (forall s now ev,
         isKeyDown ev = true ->
         ~ denotesShift (symbolicKey KEY ev) ->
         symbolicKey KEY ev <> "" -> symbolicKey KEY ev <> "KEY_" ->
         fst (processCharacter (symbolicKey KEY ev) (capNext s)) <> ""
         /\ snd (processEvents KEY s [FromEvent now ev; FromTimeout])
            = [barcode s
               ++ fst (processCharacter (symbolicKey KEY ev) (capNext s))]).
Proof.
  assert (Hsw : forall t, switchKey t = "" <-> t = "").
  { intros t. unfold switchKey.
    repeat match goal with
           | |- context [String.eqb t ?lit] =>
               destruct (String.eqb_spec t lit) as [-> | _];
               [split; discriminate |]
           end.
    reflexivity. }
  assert (Hlow : forall t, strings.ToLower t = "" <-> t = "").
  { intros [|c t]; [reflexivity | split; discriminate]. }
  assert (Hbare : forall k, bareToken k = "" <-> k = "" \/ k = "KEY_").
  { intros k. unfold bareToken, strings.TrimPrefix.
    destruct (strings.HasPrefix k "KEY_") eqn:Hp.
    - apply HasPrefix_iff in Hp as [t ->].
      change (strings.sliceFrom (String.length "KEY_") ("KEY_" ++ t)) with t.
      split.
      + intros ->. now right.
      + intros [H | H]; [discriminate H |].
        rewrite <- (string_app_nil_r "KEY_") in H at 2.
        now apply (inj (String.append "KEY_")) in H.
    - split.
      + intros ->. now left.
      + intros [-> | ->]; [reflexivity | discriminate Hp]. }
  assert (Hpc : forall k cap,
             fst (processCharacter k cap) = ""
             <-> denotesShift k \/ k = "" \/ k = "KEY_").
  { intros k cap. destruct (isShiftKey k) eqn:Hk.
    - rewrite processCharacter_shift by exact Hk.
      apply isShiftKey_iff in Hk. tauto.
    - rewrite processCharacter_plain by exact Hk. cbn [fst].
      rewrite Hsw, <- Hbare.
      assert (~ denotesShift k)
        by (rewrite <- isShiftKey_iff, Hk; discriminate).
      destruct cap; [tauto | rewrite Hlow; tauto]. }
  split; [exact Hpc |].
  intros s now ev Hdown Hns Hne1 Hne2.
  assert (Hc : fst (processCharacter (symbolicKey KEY ev) (capNext s)) <> "")
    by (rewrite Hpc; tauto).
  split; [exact Hc |].
  rewrite processEvents_cons, iteration_keydown by exact Hdown.
  cbn [fst snd]. rewrite processEvents_cons.
  rewrite iteration_timeout_nonempty; [reflexivity |].
  cbn [barcode]. intros He. apply string_app_empty in He as [_ He].
  contradiction.
Qed.

Lemma silent_keys_witness :
  snd (processEvents KEY_sample (initial 0)
         [FromEvent 1 (keyEvent 999 1); FromTimeout])
  = ["" ++ fst (processCharacter "?" false)].
Proof.
  apply (proj2 (silent_keys KEY_sample) (initial 0) 1 (keyEvent 999 1)).
  - reflexivity.
  - not_shift.
  - discriminate.
  - discriminate.
Defined.

(** X11: the barcodes do not depend on the clock.  Serving the same
    receipts at other instants, with other kernel time stamps on the
    events, sends the same barcodes and ends with the same buffer, flag and
    key: the instants reach the timer only. *)
Theorem timing_irrelevant
        (KEY : gmap Z string) (f : Z -> Z) (g : Z * Z -> Z * Z)
        (rs : list Receipt) (s : Segmenter) :
  snd (processEvents KEY s (map (retime f g) rs))
  = snd (processEvents KEY s rs)
  /\ barcode (fst (processEvents KEY s (map (retime f g) rs)))
     = barcode (fst (processEvents KEY s rs))
  /\ capNext (fst (processEvents KEY s (map (retime f g) rs)))
     = capNext (fst (processEvents KEY s rs))
  /\ key (fst (processEvents KEY s (map (retime f g) rs)))
     = key (fst (processEvents KEY s rs)).
Proof.
  cut (forall s s' : Segmenter,
          barcode s' = barcode s -> capNext s' = capNext s ->
          key s' = key s ->
          snd (processEvents KEY s' (map (retime f g) rs))
          = snd (processEvents KEY s rs)
          /\ barcode (fst (processEvents KEY s' (map (retime f g) rs)))
             = barcode (fst (processEvents KEY s rs))
          /\ capNext (fst (processEvents KEY s' (map (retime f g) rs)))
             = capNext (fst (processEvents KEY s rs))
          /\ key (fst (processEvents KEY s' (map (retime f g) rs)))
             = key (fst (processEvents KEY s rs))).
  { intros H. now apply H. }
  clear s. induction rs as [|r rs IH]; intros s s' Hb Hc Hk.
  - simpl. auto.
  - cbn [map]. rewrite !processEvents_cons. cbn [fst snd].
    assert (snd (iteration KEY s' (retime f g r)) = snd (iteration KEY s r)
            /\ barcode (fst (iteration KEY s' (retime f g r)))
               = barcode (fst (iteration KEY s r))
            /\ capNext (fst (iteration KEY s' (retime f g r)))
               = capNext (fst (iteration KEY s r))
            /\ key (fst (iteration KEY s' (retime f g r)))
               = key (fst (iteration KEY s r))) as (Ho & Hb1 & Hc1 & Hk1).
    { destruct r as [now ev|]; unfold iteration, retime, symbolicKey;
        cbn [evdev.Value evdev.Type_ evdev.Code].
      - rewrite Hc. destruct (_ && _); [| auto].
        destruct (processCharacter _ _). simpl. now rewrite Hb.
      - rewrite Hb. destruct (0 <? _); simpl; auto. }
    destruct (IH _ _ Hb1 Hc1 Hk1) as (Hs & Hb2 & Hc2 & Hk2).
    rewrite Ho, Hs. auto.
Qed.
